(** * sitecustomize.py: the task-identifier interceptor of DoclingMenuBar

    A shallow embedding of [src/macos/DoclingMenuBar/patches/sitecustomize.py]
    and the properties of its three parts:
    - [TASK_ID_PATTERN], the compiled regular expression;
    - [_wrap_task_id], the decorator whose [wrapper] prints a tagged line;
    - [_patch_gradio_ui], the best-effort patch of two module attributes. *)

From Stdlib Require Import NArith ZArith Ascii String.
From stdpp Require Import base option list strings gmap.

Local Open Scope N_scope.

(** ** Python strings

    A Python [str] is a sequence of Unicode code points. *)

Definition char : Type := N.
Definition str : Type := list char.

(** The line feed that [print] ends a line with. *)
Definition LF : char := 10.

(** The code points of a literal of the source text. *)
Definition str_of (lit : string) : str :=
  map N_of_ascii (list_ascii_of_string lit).

(** ** The fragment of [re] that the source uses

    [c] (a literal character), [[a-bc-d]] (a set of ranges), [r{n}]
    (exactly [n] repetitions) and juxtaposition. *)

Inductive regex : Type :=
| Lit (c : char)
| CharSet (ranges : list (char * char))
| Repeat (r : regex) (n : nat)
| Seq (r1 r2 : regex).

Definition in_range (c : char) (rg : char * char) : bool :=
  (fst rg <=? c) && (c <=? snd rg).

Definition in_ranges (c : char) (ranges : list (char * char)) : bool :=
  existsb (in_range c) ranges.

(** [match_prefix r s] matches [r] at the start of [s] and returns what is
    left of [s].  Every expression of the fragment consumes a fixed number
    of characters, so there is nothing to backtrack over. *)
Fixpoint match_prefix (r : regex) (s : str) : option str :=
  match r with
  | Lit c =>
      match s with
      | x :: s' => if x =? c then Some s' else None
      | [] => None
      end
  | CharSet ranges =>
      match s with
      | x :: s' => if in_ranges x ranges then Some s' else None
      | [] => None
      end
  | Repeat r0 n =>
      (fix rep (k : nat) (s0 : str) {struct k} : option str :=
         match k with
         | O => Some s0
         | S k' =>
             match match_prefix r0 s0 with
             | Some s1 => rep k' s1
             | None => None
             end
         end) n s
  | Seq r1 r2 =>
      match match_prefix r1 s with
      | Some s1 => match_prefix r2 s1
      | None => None
      end
  end.

(** [Pattern.fullmatch] on a string: the whole string must be consumed. *)
Definition fullmatch (r : regex) (s : str) : bool :=
  match match_prefix r s with
  | Some [] => true
  | _ => false
  end.

(** [[0-9a-fA-F]] *)
Definition HEX : regex :=
  CharSet [(48, 57); (97, 102); (65, 70)].

(** [-] *)
Definition HYPHEN : regex := Lit 45.

(** [[0-9a-fA-F]{8}-[0-9a-fA-F]{4}-[0-9a-fA-F]{4}-[0-9a-fA-F]{4}-[0-9a-fA-F]{12}] *)
Definition TASK_ID_PATTERN : regex :=
  Seq (Repeat HEX 8) (Seq HYPHEN
  (Seq (Repeat HEX 4) (Seq HYPHEN
  (Seq (Repeat HEX 4) (Seq HYPHEN
  (Seq (Repeat HEX 4) (Seq HYPHEN
  (Repeat HEX 12)))))))).

(** ** The canonical UUID text form, in the words of the specification *)

(** The hexadecimal digits, lowercase and uppercase. *)
Definition hex_digits : str := str_of "0123456789abcdefABCDEF".

Definition hex_digit (c : char) : Prop := c ∈ hex_digits.

(** A group of [n] hexadecimal digits. *)
Definition hex_group (n : nat) (g : str) : Prop :=
  length g = n ∧ Forall hex_digit g.

Definition hyphen : str := str_of "-".

(** Five groups of 8, 4, 4, 4 and 12 hexadecimal digits separated by single
    hyphens. *)
Definition uuid_text_form (s : str) : Prop :=
  ∃ g1 g2 g3 g4 g5 : str,
    s = g1 ++ hyphen ++ g2 ++ hyphen ++ g3 ++ hyphen ++ g4 ++ hyphen ++ g5 ∧
    hex_group 8 g1 ∧ hex_group 4 g2 ∧ hex_group 4 g3 ∧ hex_group 4 g4 ∧
    hex_group 12 g5.

(** ** Python values and exceptions *)

(** The values a callable of the host library may return.  [VObject] stands
    for any object of another type (a function, a generator, an instance of
    a host class): none of them is an instance of [str]. *)
#[warnings="-register-all"] Inductive value : Type :=
| VNone
| VBool (b : bool)
| VInt (n : Z)
| VStr (s : str)
| VBytes (b : list N)
| VList (items : list value)
| VTuple (items : list value)
| VDict (items : list (value * value))
| VObject (id : N).

(** [isinstance(v, str)] *)
Definition isinstance_str (v : value) : bool :=
  match v with
  | VStr _ => true
  | _ => false
  end.

(** The exception classes the model distinguishes.  [SystemExit],
    [KeyboardInterrupt] and [GeneratorExit] derive from [BaseException]
    directly; the other built-in classes derive from [Exception]. *)
Inductive exc_class : Type :=
| BaseException
| SystemExit
| KeyboardInterrupt
| GeneratorExit
| Exception
| ImportError
| ModuleNotFoundError
| AttributeError
| TypeError
| ValueError
| RuntimeError
| UserDefined (name : string) (base : exc_class).

Record exception : Type := mk_exception {
  exc_type : exc_class;
  exc_message : str
}.

(** [issubclass(c, Exception)] *)
Fixpoint issubclass_Exception (c : exc_class) : bool :=
  match c with
  | BaseException | SystemExit | KeyboardInterrupt | GeneratorExit => false
  | UserDefined _ base => issubclass_Exception base
  | _ => true
  end.

(** [isinstance(e, Exception)], the test of [except Exception:]. *)
Definition isinstance_Exception (e : exception) : bool :=
  issubclass_Exception (exc_type e).

(** A call either returns a value or raises. *)
Inductive outcome (A : Type) : Type :=
| Ret (a : A)
| Raise (e : exception).

Arguments Ret {A} a.
Arguments Raise {A} e.

(** ** Statements as state transformers that may raise *)

Definition SE (S A : Type) : Type := S → outcome A * S.

Definition ret {S A : Type} (a : A) : SE S A := λ s, (Ret a, s).

Definition raise {S A : Type} (e : exception) : SE S A := λ s, (Raise e, s).

Definition bind {S A B : Type} (m : SE S A) (k : A → SE S B) : SE S B :=
  λ s, match m s with
       | (Ret a, s') => k a s'
       | (Raise e, s') => (Raise e, s')
       end.

Notation "x <- m ;; k" := (bind m (λ x, k))
  (at level 100, m at next level, right associativity).
Notation "m ;;; k" := (bind m (λ _, k))
  (at level 100, right associativity).

(** [try: body / except <class>: handler] *)
Definition try_except {S A : Type}
    (body : SE S A) (caught : exception → bool) (handler : SE S A) : SE S A :=
  λ s, match body s with
       | (Ret a, s') => (Ret a, s')
       | (Raise e, s') => if caught e then handler s' else (Raise e, s')
       end.

(** [for x in xs: body x] *)
Fixpoint for_each {S A : Type} (xs : list A) (body : A → SE S unit) : SE S unit :=
  match xs with
  | [] => ret tt
  | x :: xs' => body x ;;; for_each xs' body
  end.

(** [a and b], where [b] is evaluated only when [a] is true. *)
Definition and_then {S : Type} (a : bool) (b : SE S bool) : SE S bool :=
  if a then b else ret false.

(** ** [re.Pattern.fullmatch] as the wrapper calls it *)

Record re_Match : Type := mk_Match {
  match_string : str;
  match_span : nat * nat
}.

(** [pattern.fullmatch(v)]: a match object or [None] on a [str]; a
    [TypeError] on anything else. *)
Definition Pattern_fullmatch (pattern : regex) (v : value) : outcome (option re_Match) :=
  match v with
  | VStr s =>
      Ret (if fullmatch pattern s then Some (mk_Match s (O, length s)) else None)
  | VBytes _ =>
      Raise (mk_exception TypeError
               (str_of "cannot use a string pattern on a bytes-like object"))
  | _ =>
      Raise (mk_exception TypeError (str_of "expected string or bytes-like object"))
  end.

(** The truth value of what [fullmatch] returns: a match object is true,
    [None] is false. *)
Definition truth (m : option re_Match) : bool :=
  match m with
  | Some _ => true
  | None => false
  end.

Section Interceptor.

(** The state of the host library, whatever it is. *)
Context {H : Type}.

(** What [str()] gives for the values that are not strings; the source never
    fixes it. *)
Variable str_of_other : value → str.

(** What a call can see and change: the characters written to standard
    output so far, and the host's own state. *)
Record world : Type := mk_world {
  stdout : str;
  host : H
}.

(** A callable takes positional arguments and keyword arguments. *)
Definition callable : Type := list value → list (string * value) → SE world value.

(** An object bound to a module attribute. *)
Inductive pyobj : Type :=
| Data (v : value)
| Callable (f : callable).

(** [callable(o)] *)
Definition py_callable (o : pyobj) : bool :=
  match o with
  | Callable _ => true
  | Data _ => false
  end.

(** Calling [o] with positional and keyword arguments. *)
Definition call (o : pyobj) (args : list value) (kwargs : list (string * value))
  : SE world value :=
  match o with
  | Callable f => f args kwargs
  | Data _ => raise (mk_exception TypeError (str_of "object is not callable"))
  end.

(** [sys.stdout.write(text)] *)
Definition write (text : str) (w : world) : world :=
  mk_world (stdout w ++ text) (host w).

(** [print(line, flush=True)] *)
Definition print (line : str) : SE world unit :=
  λ w, (Ret tt, write (line ++ [LF]) w).

(** The [{result}] of an f-string. *)
Definition format_value (v : value) : str :=
  match v with
  | VStr s => s
  | _ => str_of_other v
  end.

(** An expression that may raise but has no effect. *)
Definition eval {S A : Type} (o : outcome A) : SE S A := λ s, (o, s).

(** The [wrapper] closure of [_wrap_task_id(func)]. *)
Definition wrapper (func : pyobj) : callable :=
  λ args kwargs,
    result <- call func args kwargs ;;
    cond <- and_then (isinstance_str result)
              (m <- eval (Pattern_fullmatch TASK_ID_PATTERN result) ;; ret (truth m)) ;;
    (if cond : bool
     then print (str_of "docling_task_id=" ++ format_value result)
     else ret tt) ;;;
    ret result.

Definition _wrap_task_id (func : pyobj) : pyobj := Callable (wrapper func).

(** ** The patch *)

(** The interpreter as the patch sees it: the attributes of every loaded
    module, by module name, and everything else. *)
Record interp : Type := mk_interp {
  sys_modules : gmap string (gmap string pyobj);
  outside : world
}.

(** The [__dict__] of module [m]. *)
Definition module_dict (st : interp) (m : string) : gmap string pyobj :=
  default ∅ (sys_modules st !! m).

(** [hasattr(m, name)] *)
Definition hasattr (m name : string) : SE interp bool :=
  λ st, (Ret (bool_decide (is_Some (module_dict st m !! name))), st).

(** [getattr(m, name)] *)
Definition getattr (m name : string) : SE interp pyobj :=
  λ st, match module_dict st m !! name with
        | Some o => (Ret o, st)
        | None => (Raise (mk_exception AttributeError (str_of "module has no attribute")), st)
        end.

(** [setattr(m, name, o)]: the module object is shared, every holder of [m]
    sees the new binding. *)
Definition setattr (m name : string) (o : pyobj) : SE interp unit :=
  λ st, (Ret tt,
         mk_interp (<[m := <[name := o]> (module_dict st m)]> (sys_modules st))
                   (outside st)).

(** [from docling_serve import gradio_ui]: the import machinery belongs to
    the interpreter; it gives the module (by name) or raises, and may change
    the interpreter on the way. *)
Variable import_gradio_ui : SE interp string.

Definition patched_names : list string := ["process_url"; "process_file"]%string.

Definition _patch_gradio_ui : SE interp value :=
  imported <- try_except (gradio_ui <- import_gradio_ui ;; ret (Some gradio_ui))
                isinstance_Exception
                (ret None) ;;
  match imported with
  | None => ret VNone
  | Some gradio_ui =>
      for_each patched_names (λ name,
        present <- hasattr gradio_ui name ;;
        if present : bool then
          original <- getattr gradio_ui name ;;
          if py_callable original
          then setattr gradio_ui name (_wrap_task_id original)
          else ret tt
        else ret tt) ;;;
      ret VNone
  end.

(** What one turn of the loop of [_patch_gradio_ui] leaves behind: [name] of
    module [m] rebound to its wrapper when it is there and callable. *)
Definition rebind (m name : string) (st : interp) : interp :=
  match module_dict st m !! name with
  | Some o => if py_callable o then snd (setattr m name (_wrap_task_id o) st) else st
  | None => st
  end.

End Interceptor.

(** ** Vocabulary of the statements *)

(** The line that the wrapper prints for the task identifier [s]. *)
Definition tagged_line (s : str) : str :=
  str_of "docling_task_id=" ++ s ++ [LF].

(** What the wrapper adds to standard output after a call that ended in
    [o]. *)
Definition emission (o : outcome value) : str :=
  match o with
  | Ret (VStr s) => if fullmatch TASK_ID_PATTERN s then tagged_line s else []
  | _ => []
  end.

(** ** Callables and interpreters of the examples *)

Definition no_str : value → str := λ _, [].

(** A fresh process: nothing written yet, no host state. *)
Definition w0 : world (H:=unit) := mk_world [] tt.

(** A callable that returns [v], and one that raises [e]. *)
Definition returning (v : value) : pyobj (H:=unit) := Callable (λ _ _, ret v).
Definition raising (e : exception) : pyobj (H:=unit) := Callable (λ _ _, raise e).

(** A callable that writes a progress message before it returns [v]. *)
Definition chatty (v : value) : pyobj (H:=unit) :=
  Callable (λ _ _, print (str_of "working") ;;; ret v).

(** A callable of a host that keeps a log of the calls it receives. *)
Definition recording (v : value)
  : pyobj (H:=list (list value * list (string * value))) :=
  Callable (λ args kwargs w,
    (Ret v, mk_world (stdout w) (host w ++ [(args, kwargs)]))).

Definition sample_uuid : str := str_of "3fa85f64-5717-4562-b3fc-2c963f66afa6".

Definition gradio_ui_name : string := "docling_serve.gradio_ui".

(** An interpreter in which [docling_serve.gradio_ui] is loaded, with a
    callable [process_url], a [process_file] that is not callable, and a
    third attribute. *)
Definition st_gradio : interp (H:=unit) :=
  mk_interp
    {[ gradio_ui_name :=
         <["process_url" := returning (VStr sample_uuid)]>
         (<["process_file" := Data (VInt 7)]>
         (<["launch" := returning VNone]> ∅)) ]}
    w0.

(** An interpreter without the host library. *)
Definition st_bare : interp (H:=unit) := mk_interp ∅ w0.

(** The import succeeds and gives the loaded module; or it raises [e]. *)
Definition import_loaded : SE (interp (H:=unit)) string := ret gradio_ui_name.
Definition import_raising (e : exception) : SE (interp (H:=unit)) string := raise e.

Definition module_not_found : exception :=
  mk_exception ModuleNotFoundError (str_of "No module named 'docling_serve'").
Definition keyboard_interrupt : exception := mk_exception KeyboardInterrupt [].
Definition system_exit : exception := mk_exception SystemExit [].

(** ** Vocabulary of the further properties *)

(** Where the hyphens of a task identifier stand, counting from 0. *)
Definition hyphen_positions : list nat := [8; 13; 18; 23]%nat.

(** What the loop of [_patch_gradio_ui] binds in place of [o]. *)
Definition wrap_if_callable {H : Type} (str_of_other : value → str)
    (o : pyobj (H:=H)) : pyobj (H:=H) :=
  if py_callable o then _wrap_task_id str_of_other o else o.


(** An interpreter in which both names of [docling_serve.gradio_ui] are
    callable. *)
Definition st_both : interp (H:=unit) :=
  mk_interp
    {[ gradio_ui_name :=
         <["process_url" := returning (VStr sample_uuid)]>
         (<["process_file" := chatty (VStr sample_uuid)]> ∅) ]}
    w0.

(** ** The wrapper in a running interpreter

    The same lines 9-13, over what a running interpreter adds to the data
    above: a standard output that may have been closed or lost its reader,
    and objects that pass [isinstance(o, str)] without being plain
    strings. *)

Module Runtime.

(** [BrokenPipeError], under [ConnectionError], [OSError] and [Exception]. *)
Definition BrokenPipeError : exc_class :=
  UserDefined "BrokenPipeError"
    (UserDefined "ConnectionError" (UserDefined "OSError" Exception)).

(** An object a callable may return. *)
Inductive obj : Type :=
| Plain (v : value)
    (* an object of a built-in type *)
| StrSubclass (text : str) (formatted : outcome str)
    (* an instance of a subclass of [str] holding [text]; [formatted] is
       what its [__format__] gives on the empty format *)
| ClassStr (id : N).
    (* an object that is not a string and whose [__class__] is [str], as
       [unittest.mock.Mock(spec=str)] *)

(** [isinstance(o, str)]: true on instances of subclasses, and on objects
    whose [__class__] is [str]. *)
Definition isinstance_str (o : obj) : bool :=
  match o with
  | Plain v => isinstance_str v
  | StrSubclass _ _ => true
  | ClassStr _ => true
  end.

(** [pattern.fullmatch(o)]: on an instance of a subclass of [str] the match
    is on the text it holds. *)
Definition Pattern_fullmatch (pattern : regex) (o : obj) : outcome (option re_Match) :=
  match o with
  | Plain v => Pattern_fullmatch pattern v
  | StrSubclass text _ =>
      Ret (if fullmatch pattern text then Some (mk_Match text (O, length text)) else None)
  | ClassStr _ =>
      Raise (mk_exception TypeError (str_of "expected string or bytes-like object"))
  end.

(** The state of standard output. *)
Inductive stream_state : Type :=
| Open
| Closed
| BrokenPipe.

Section Interceptor.

Context {H : Type}.
Variable str_of_other : value → str.

Record world : Type := mk_world {
  stdout : str;
  stdout_state : stream_state;
  host : H
}.

Definition callable : Type := list obj → list (string * obj) → SE world obj.

Inductive pyobj : Type :=
| Data (o : obj)
| Callable (f : callable).

(** Calling [o] with positional and keyword arguments. *)
Definition call (o : pyobj) (args : list obj) (kwargs : list (string * obj))
  : SE world obj :=
  match o with
  | Callable f => f args kwargs
  | Data _ => raise (mk_exception TypeError (str_of "object is not callable"))
  end.

(** [sys.stdout.write(text)] on an open stream. *)
Definition write (text : str) (w : world) : world :=
  mk_world (stdout w ++ text) (stdout_state w) (host w).

(** [print(line, flush=True)]: the line goes out on an open stream; a closed
    stream refuses the write, a broken pipe the flush. *)
Definition print (line : str) : SE world unit :=
  λ w, match stdout_state w with
       | Open => (Ret tt, write (line ++ [LF]) w)
       | Closed =>
           (Raise (mk_exception ValueError (str_of "I/O operation on closed file.")), w)
       | BrokenPipe =>
           (Raise (mk_exception BrokenPipeError (str_of "[Errno 32] Broken pipe")), w)
       end.

(** The [{result}] of an f-string: [format(result, "")]. *)
Definition format_value (o : obj) : outcome str :=
  match o with
  | Plain (VStr s) => Ret s
  | Plain v => Ret (str_of_other v)
  | StrSubclass _ formatted => formatted
  | ClassStr _ => Ret (str_of_other (VObject 0))
  end.

(** The [wrapper] closure of [_wrap_task_id(func)]. *)
Definition wrapper (func : pyobj) : callable :=
  λ args kwargs,
    result <- call func args kwargs ;;
    cond <- and_then (isinstance_str result)
              (m <- eval (Pattern_fullmatch TASK_ID_PATTERN result) ;; ret (truth m)) ;;
    (if cond : bool
     then text <- eval (format_value result) ;;
          print (str_of "docling_task_id=" ++ text)
     else ret tt) ;;;
    ret result.

Definition _wrap_task_id (func : pyobj) : pyobj := Callable (wrapper func).

End Interceptor.

(** A callable that returns [o]. *)
Definition returning (o : obj) : pyobj (H:=unit) := Callable (λ _ _, ret o).

(** Standard output in each of its states, nothing written yet. *)
Definition w_open : world (H:=unit) := mk_world [] Open tt.
Definition w_closed : world (H:=unit) := mk_world [] Closed tt.
Definition w_broken : world (H:=unit) := mk_world [] BrokenPipe tt.

(** A subclass of [str] whose [__format__] raises. *)
Definition unformattable (text : str) : obj :=
  StrSubclass text (Raise (mk_exception RuntimeError (str_of "no format"))).

End Runtime.

(** * Properties *)

(** ** The pattern *)

Section Pattern.

Lemma fullmatch_spec (r : regex) (s : str) :
  fullmatch r s = true ↔ match_prefix r s = Some [].
Proof.
  unfold fullmatch. destruct (match_prefix r s) as [[|c rest]|]; split; intros E; try reflexivity; discriminate E.
Qed.

Lemma match_prefix_Seq (r1 r2 : regex) (s rest : str) :
  match_prefix (Seq r1 r2) s = Some rest ↔
  ∃ mid, match_prefix r1 s = Some mid ∧ match_prefix r2 mid = Some rest.
Proof.
  simpl. destruct (match_prefix r1 s) as [mid|].
  - split; [eauto|]. intros (mid' & [= <-] & Hm). exact Hm.
  - split; [discriminate|]. intros (mid' & Hm & _). discriminate.
Qed.

Lemma match_prefix_Lit (c : char) (s rest : str) :
  match_prefix (Lit c) s = Some rest ↔ s = c :: rest.
Proof.
  simpl. destruct s as [|x s']; [split; discriminate|].
  destruct (N.eqb_spec x c) as [->|Hne]; split.
  - intros [= ->]. reflexivity.
  - intros [= ->]. reflexivity.
  - discriminate.
  - intros [= -> ->]. contradiction.
Qed.

Lemma match_prefix_CharSet (ranges : list (char * char)) (s rest : str) :
  match_prefix (CharSet ranges) s = Some rest ↔
  ∃ c, s = c :: rest ∧ in_ranges c ranges = true.
Proof.
  simpl. destruct s as [|x s']; [split; [discriminate|intros (c & [=] & _)]|].
  destruct (in_ranges x ranges) eqn:E; split.
  - intros [= <-]. eauto.
  - intros (c & [= <- <-] & _). reflexivity.
  - discriminate.
  - intros (c & [= <- <-] & Hc). congruence.
Qed.

(** [r{n}] over a character set takes exactly [n] characters of the set. *)
Lemma match_prefix_Repeat_CharSet (ranges : list (char * char)) (n : nat) (s rest : str) :
  match_prefix (Repeat (CharSet ranges) n) s = Some rest ↔
  ∃ g, s = g ++ rest ∧ length g = n ∧ Forall (λ c, in_ranges c ranges = true) g.
Proof.
  revert s. induction n as [|n IH]; intros s.
  - simpl. split.
    + intros [= ->]. exists []. auto.
    + intros (g & -> & Hlen & _). destruct g; [reflexivity|discriminate].
  - change (match_prefix (Repeat (CharSet ranges) (S n)) s)
      with (match match_prefix (CharSet ranges) s with
            | Some s1 => match_prefix (Repeat (CharSet ranges) n) s1
            | None => None
            end).
    destruct (match_prefix (CharSet ranges) s) as [s1|] eqn:E.
    + apply match_prefix_CharSet in E as (c & -> & Hc).
      rewrite IH. split.
      * intros (g & -> & Hlen & Hall). exists (c :: g). simpl. auto.
      * intros (g & Heq & Hlen & Hall). destruct g as [|c' g]; [discriminate|].
        simpl in Heq, Hlen. injection Heq as <- ->. injection Hlen as Hlen.
        apply Forall_cons in Hall as [_ Hall]. eauto.
    + split; [discriminate|].
      intros (g & -> & Hlen & Hall). destruct g as [|c g]; [discriminate|].
      apply Forall_cons in Hall as [Hc _].
      assert (match_prefix (CharSet ranges) ((c :: g) ++ rest) = Some (g ++ rest)) as E'
        by (apply match_prefix_CharSet; eauto).
      congruence.
Qed.

(** The set [[0-9a-fA-F]] holds the hexadecimal digits and nothing else. *)
Lemma HEX_ranges_hex_digit (c : char) :
  in_ranges c [(48, 57); (97, 102); (65, 70)] = true ↔ hex_digit c.
Proof.
  unfold hex_digit.
  assert (c ∈ hex_digits ↔ existsb (N.eqb c) hex_digits = true) as ->.
  { rewrite existsb_exists. setoid_rewrite N.eqb_eq. rewrite list_elem_of_In.
    split; [eauto|]. intros (x & Hx & ->). exact Hx. }
  destruct (N.lt_ge_cases c 128) as [Hlt|Hge].
  - assert (forallb (λ n, Bool.eqb (in_ranges (N.of_nat n) [(48, 57); (97, 102); (65, 70)])
                                   (existsb (N.eqb (N.of_nat n)) hex_digits))
              (seq 0 128) = true) as Hall by (vm_compute; reflexivity).
    rewrite forallb_forall in Hall.
    specialize (Hall (N.to_nat c)). rewrite N2Nat.id in Hall.
    apply Bool.eqb_prop in Hall; [rewrite Hall; reflexivity|].
    apply in_seq. lia.
  - assert (in_ranges c [(48, 57); (97, 102); (65, 70)] = false) as ->.
    { unfold in_ranges, in_range. simpl.
      repeat (apply orb_false_intro); try reflexivity;
        apply andb_false_intro2; apply N.leb_gt; lia. }
    assert (existsb (N.eqb c) hex_digits = false) as ->; [|split; discriminate].
    apply not_true_is_false. rewrite existsb_exists.
    intros (x & Hx & Heq). apply N.eqb_eq in Heq. subst x.
    vm_compute in Hx.
    repeat (destruct Hx as [<-|Hx]; [vm_compute in Hge; congruence|]). destruct Hx.
Qed.

Lemma match_prefix_HEX_group (n : nat) (s rest : str) :
  match_prefix (Repeat HEX n) s = Some rest ↔ ∃ g, s = g ++ rest ∧ hex_group n g.
Proof.
  unfold HEX, hex_group. rewrite match_prefix_Repeat_CharSet.
  split; intros (g & Hs & Hlen & Hall); exists g; repeat split; auto;
    eapply Forall_impl; eauto; intros c; apply HEX_ranges_hex_digit.
Qed.

Lemma match_prefix_HYPHEN (s rest : str) :
  match_prefix HYPHEN s = Some rest ↔ s = hyphen ++ rest.
Proof. apply match_prefix_Lit. Qed.

(** C6. A string fully matches [TASK_ID_PATTERN] if and only if it consists
    of five groups of hexadecimal digits, of 8, 4, 4, 4 and 12 digits,
    separated by single hyphens; the digits may be lowercase or uppercase. *)
Theorem TASK_ID_PATTERN_fullmatch_uuid (s : str) :
  fullmatch TASK_ID_PATTERN s = true ↔ uuid_text_form s.
Proof.
  rewrite fullmatch_spec. unfold TASK_ID_PATTERN, uuid_text_form. split.
  - intros Hm.
    repeat match type of Hm with
           | match_prefix (Seq _ _) _ = Some _ =>
               let mid := fresh "mid" in let Ha := fresh "Ha" in
               apply match_prefix_Seq in Hm as (mid & Ha & Hm)
           end.
    repeat match goal with
           | Hx : match_prefix (Repeat HEX _) _ = Some _ |- _ =>
               let g := fresh "g" in let Hg := fresh "Hg" in
               apply match_prefix_HEX_group in Hx as (g & -> & Hg)
           | Hx : match_prefix HYPHEN _ = Some _ |- _ =>
               apply match_prefix_HYPHEN in Hx as ->
           end.
    rewrite app_nil_r. do 5 eexists. split; [reflexivity|]. repeat (split; [assumption|]). assumption.
  - intros (g1 & g2 & g3 & g4 & g5 & -> & H1 & H2 & H3 & H4 & H5).
    repeat (apply match_prefix_Seq; eexists; split;
            [first [apply match_prefix_HEX_group; eexists; split; [reflexivity|eassumption]
                   |apply match_prefix_HYPHEN; reflexivity]|]).
    apply match_prefix_HEX_group. exists g5. rewrite app_nil_r. auto.
Qed.

End Pattern.

(** ** The wrapper *)

Section Wrapper.

Context {H : Type}.
Variable str_of_other : value → str.

Local Arguments fullmatch : simpl never.
Local Arguments str_of : simpl never.

Abbreviation wrapper := (wrapper str_of_other).
Abbreviation _wrap_task_id := (_wrap_task_id str_of_other).

Lemma write_nil (w : world (H:=H)) : write [] w = w.
Proof. destruct w as [out h]. unfold write. simpl. by rewrite app_nil_r. Qed.





(** One run of the wrapper, step by step: the outcome of the call is kept,
    and the output grows by [emission]. *)
Lemma wrapper_run (func : pyobj) args kwargs (w w1 : world (H:=H)) (o : outcome value) :
  call func args kwargs w = (o, w1) →
  wrapper func args kwargs w = (o, write (emission o) w1).
Proof.
  intros Hcall. unfold wrapper, bind. rewrite Hcall.
  destruct o as [result|e]; [|by rewrite write_nil].
  destruct result;
    cbv [and_then isinstance_str ret emission]; try by rewrite write_nil.
  cbv [eval Pattern_fullmatch]. destruct (fullmatch TASK_ID_PATTERN s).
  - cbv [truth print format_value tagged_line write stdout host].
    by rewrite <- app_assoc.
  - cbv [truth]. by rewrite write_nil.
Qed.





(** C3. When the original callable raises, the wrapper raises the same
    exception and leaves the state, standard output included, as the
    callable left it. *)
Theorem wrapper_propagates_exception
    (func : pyobj) args kwargs (w w1 : world (H:=H)) (e : exception) :
  call func args kwargs w = (Raise e, w1) →
  wrapper func args kwargs w = (Raise e, w1).
Proof.
  intros Hcall. rewrite (wrapper_run _ _ _ _ _ _ Hcall). simpl. by rewrite write_nil.
Qed.



End Wrapper.

(** ** The patch *)

Section Patch.

Context {H : Type}.
Variable str_of_other : value → str.
Variable import_gradio_ui : SE (interp (H:=H)) string.

Abbreviation patch := (_patch_gradio_ui str_of_other import_gradio_ui).

(** The body of the loop, for one name. *)
Lemma patch_name_run (m name : string) (st : interp (H:=H)) :
  (present <- hasattr m name ;;
   if present : bool then
     original <- getattr m name ;;
     if py_callable original
     then setattr m name (_wrap_task_id str_of_other original)
     else ret tt
   else ret tt) st = (Ret tt, rebind str_of_other m name st).
Proof.
  unfold bind, hasattr, getattr, rebind.
  destruct (module_dict st m !! name) as [o|] eqn:E.
  - rewrite bool_decide_eq_true_2 by eauto. rewrite E.
    destruct (py_callable o); reflexivity.
  - rewrite bool_decide_eq_false_2; [reflexivity|]. by intros [? ?].
Qed.

(** The loop over the two names. *)
Lemma patch_loop_run (m : string) (st : interp (H:=H)) :
  for_each patched_names (λ name,
    present <- hasattr m name ;;
    if present : bool then
      original <- getattr m name ;;
      if py_callable original
      then setattr m name (_wrap_task_id str_of_other original)
      else ret tt
    else ret tt) st
  = (Ret tt, rebind str_of_other m "process_file" (rebind str_of_other m "process_url" st)).
Proof.
  unfold patched_names, for_each.
  unfold bind at 1. rewrite patch_name_run.
  unfold bind at 1. rewrite patch_name_run.
  reflexivity.
Qed.

(** The whole procedure, by the outcome of the import. *)
Lemma patch_run_imported (st st1 : interp (H:=H)) (m : string) :
  import_gradio_ui st = (Ret m, st1) →
  patch st
  = (Ret VNone, rebind str_of_other m "process_file" (rebind str_of_other m "process_url" st1)).
Proof.
  intros Himp. unfold _patch_gradio_ui.
  unfold bind at 1. unfold try_except. unfold bind at 1. rewrite Himp.
  unfold ret at 1. unfold bind at 1. by rewrite patch_loop_run.
Qed.

Lemma patch_run_import_raises (st st1 : interp (H:=H)) (e : exception) :
  import_gradio_ui st = (Raise e, st1) →
  patch st
  = if isinstance_Exception e then (Ret VNone, st1) else (Raise e, st1).
Proof.
  intros Himp. unfold _patch_gradio_ui.
  unfold bind at 1. unfold try_except. unfold bind at 1. rewrite Himp.
  by destruct (isinstance_Exception e).
Qed.

(** Rebinding one name keeps everything else. *)
Lemma rebind_outside (m name : string) (st : interp (H:=H)) :
  outside (rebind str_of_other m name st) = outside st.
Proof.
  unfold rebind. destruct (module_dict st m !! name) as [o|]; [|reflexivity].
  by destruct (py_callable o).
Qed.

Lemma rebind_other_module (m m' name : string) (st : interp (H:=H)) :
  m' ≠ m →
  sys_modules (rebind str_of_other m name st) !! m' = sys_modules st !! m'.
Proof.
  intros Hne. unfold rebind. destruct (module_dict st m !! name) as [o|]; [|reflexivity].
  destruct (py_callable o); [|reflexivity]. simpl. by rewrite lookup_insert_ne.
Qed.

Lemma rebind_other_name (m m' name a : string) (st : interp (H:=H)) :
  a ≠ name →
  module_dict (rebind str_of_other m name st) m' !! a = module_dict st m' !! a.
Proof.
  intros Hne. unfold rebind. destruct (module_dict st m !! name) as [o|]; [|reflexivity].
  destruct (py_callable o); [|reflexivity]. unfold module_dict at 1. simpl.
  destruct (decide (m = m')) as [->|Hm].
  - rewrite lookup_insert_eq. simpl. by rewrite lookup_insert_ne.
  - by rewrite lookup_insert_ne.
Qed.

Lemma rebind_skips (m name : string) (st : interp (H:=H)) :
  module_dict st m !! name = None ∨ (∃ v, module_dict st m !! name = Some (Data v)) →
  rebind str_of_other m name st = st.
Proof.
  unfold rebind. intros [->|[v ->]]; reflexivity.
Qed.

Lemma rebind_wraps (m name : string) (st : interp (H:=H)) (f : callable (H:=H)) :
  module_dict st m !! name = Some (Callable f) →
  module_dict (rebind str_of_other m name st) m !! name
  = Some (_wrap_task_id str_of_other (Callable f)).
Proof.
  unfold rebind. intros ->. simpl. unfold module_dict. simpl.
  rewrite lookup_insert_eq. simpl. by rewrite lookup_insert_eq.
Qed.

(** C4, amended. If the import raises an exception that is an instance of
    [Exception], the patch procedure returns normally and changes nothing:
    the interpreter is as the failed import left it. *)
Theorem patch_silent_on_import_Exception (st st1 : interp (H:=H)) (e : exception) :
  import_gradio_ui st = (Raise e, st1) →
  isinstance_Exception e = true →
  patch st = (Ret VNone, st1).
Proof.
  intros Himp He. rewrite (patch_run_import_raises _ _ _ Himp). by rewrite He.
Qed.

(** C5, amended. When the import gives the module, a name that the module
    lacks, or that is bound to something not callable, keeps its binding,
    and the procedure returns normally; it returns normally too when the
    import raises an instance of [Exception]; an exception of the import
    that is not an instance of [Exception] is the only one that leaves the
    procedure. *)
Theorem patch_skips_absent_or_not_callable
    (st st1 : interp (H:=H)) (imported : outcome string) :
  import_gradio_ui st = (imported, st1) →
  (∀ m name,
      imported = Ret m →
      name ∈ patched_names →
      module_dict st1 m !! name = None ∨ (∃ v, module_dict st1 m !! name = Some (Data v)) →
      fst (patch st) = Ret VNone ∧
      module_dict (snd (patch st)) m !! name = module_dict st1 m !! name) ∧
  (∀ m, imported = Ret m → fst (patch st) = Ret VNone) ∧
  (∀ e, imported = Raise e → isinstance_Exception e = true →
        fst (patch st) = Ret VNone) ∧
  (∀ e, imported = Raise e → isinstance_Exception e = false →
        patch st = (Raise e, st1)).
Proof.
  intros Himp. split; [|split; [|split]].
  - intros m name -> Hname Hskip.
    rewrite (patch_run_imported _ _ _ Himp). simpl. split; [reflexivity|].
    apply list_elem_of_In in Hname. simpl in Hname.
    destruct Hname as [<-|[<-|[]]].
    + rewrite rebind_other_name by discriminate. by rewrite rebind_skips.
    + assert (module_dict (rebind str_of_other m "process_url" st1) m !! "process_file"
              = module_dict st1 m !! "process_file") as Hsame
        by (by apply rebind_other_name).
      rewrite rebind_skips; [exact Hsame|]. by rewrite Hsame.
  - intros m ->. by rewrite (patch_run_imported _ _ _ Himp).
  - intros e -> He. rewrite (patch_run_import_raises _ _ _ Himp). by rewrite He.
  - intros e -> He. rewrite (patch_run_import_raises _ _ _ Himp). by rewrite He.
Qed.

(** C8. Patching rebinds at most [process_url] and [process_file] of the
    imported module: every other module, every other attribute of that
    module and everything outside the modules are as the import left
    them. *)
Theorem patch_frame (st st1 : interp (H:=H)) (imported : outcome string) :
  import_gradio_ui st = (imported, st1) →
  outside (snd (patch st)) = outside st1 ∧
  (∀ m, imported ≠ Ret m →
        sys_modules (snd (patch st)) !! m = sys_modules st1 !! m) ∧
  (∀ m a, a ∉ patched_names →
          module_dict (snd (patch st)) m !! a = module_dict st1 m !! a).
Proof.
  intros Himp. destruct imported as [gradio_ui|e].
  - rewrite (patch_run_imported _ _ _ Himp). simpl. repeat split.
    + by rewrite !rebind_outside.
    + intros m Hm. rewrite !rebind_other_module; [done|congruence..].
    + intros m a Ha. rewrite !rebind_other_name; [done|..];
        intros ->; apply Ha; unfold patched_names; set_solver.
  - rewrite (patch_run_import_raises _ _ _ Himp).
    by destruct (isinstance_Exception e).
Qed.

End Patch.

(** ** The examples of the specification, run on the model *)

Section Examples.

Example fullmatch_sample_uuid : fullmatch TASK_ID_PATTERN sample_uuid = true.
Proof. reflexivity. Qed.

Example fullmatch_uppercase :
  fullmatch TASK_ID_PATTERN (str_of "3FA85F64-5717-4562-B3FC-2C963F66AFA6") = true.
Proof. reflexivity. Qed.

Example fullmatch_not_a_uuid : fullmatch TASK_ID_PATTERN (str_of "not-a-uuid") = false.
Proof. reflexivity. Qed.

(** [fullmatch] does not stop before a trailing line feed, nor search inside a
    longer string. *)
Example fullmatch_trailing_newline :
  fullmatch TASK_ID_PATTERN (sample_uuid ++ [LF]) = false.
Proof. reflexivity. Qed.

Example fullmatch_embedded :
  fullmatch TASK_ID_PATTERN (str_of "id=" ++ sample_uuid) = false.
Proof. reflexivity. Qed.

Example fullmatch_not_hex :
  fullmatch TASK_ID_PATTERN (str_of "3fa85f64-5717-4562-b3fc-2c963f66afag") = false.
Proof. reflexivity. Qed.

(** Without the type test the wrapper would fail on [None]. *)
Example Pattern_fullmatch_None_raises :
  ∃ msg, Pattern_fullmatch TASK_ID_PATTERN VNone = Raise (mk_exception TypeError msg).
Proof. eexists. reflexivity. Qed.

Example wrapper_sample_uuid :
  wrapper no_str (returning (VStr sample_uuid)) [] [] w0
  = (Ret (VStr sample_uuid),
     mk_world (str_of "docling_task_id=3fa85f64-5717-4562-b3fc-2c963f66afa6" ++ [LF]) tt).
Proof. reflexivity. Qed.

Example wrapper_not_a_uuid :
  wrapper no_str (returning (VStr (str_of "not-a-uuid"))) [] [] w0
  = (Ret (VStr (str_of "not-a-uuid")), w0).
Proof. reflexivity. Qed.

Example wrapper_None : wrapper no_str (returning VNone) [] [] w0 = (Ret VNone, w0).
Proof. reflexivity. Qed.

(** The output of the callable itself comes first, the tagged line after. *)
Example wrapper_chatty :
  stdout (snd (wrapper no_str (chatty (VStr sample_uuid)) [] [] w0))
  = str_of "working" ++ [LF] ++ tagged_line sample_uuid.
Proof. reflexivity. Qed.

(** The original callable is called once, with the arguments of the
    wrapper. *)
Example wrapper_calls_once :
  host (snd (wrapper no_str (recording VNone)
               [VInt 1; VStr sample_uuid] [("max_pages"%string, VInt 3)]
               (mk_world [] [])))
  = [([VInt 1; VStr sample_uuid], [("max_pages"%string, VInt 3)])].
Proof. reflexivity. Qed.

(** Patching the loaded module: [process_url] is rebound to its wrapper,
    [process_file], which is not callable, keeps its binding. *)
Example patch_loaded_module :
  fst (_patch_gradio_ui no_str import_loaded st_gradio) = Ret VNone ∧
  module_dict (snd (_patch_gradio_ui no_str import_loaded st_gradio)) gradio_ui_name
    !! "process_url"
  = Some (_wrap_task_id no_str (returning (VStr sample_uuid))) ∧
  module_dict (snd (_patch_gradio_ui no_str import_loaded st_gradio)) gradio_ui_name
    !! "process_file"
  = Some (Data (VInt 7)).
Proof.
  rewrite (patch_run_imported no_str import_loaded st_gradio st_gradio gradio_ui_name)
    by reflexivity.
  cbn [fst snd]. split; [reflexivity|]. split.
  - rewrite rebind_other_name by discriminate. by apply rebind_wraps.
  - rewrite rebind_skips; [by rewrite rebind_other_name|].
    right. exists (VInt 7). by rewrite rebind_other_name.
Qed.

End Examples.

(** ** Instances *)

Section Instances.


Lemma wrapper_propagates_exception_witness :
  call (raising module_not_found) [] [] w0 = (Raise module_not_found, w0) ∧
  wrapper no_str (raising module_not_found) [] [] w0 = (Raise module_not_found, w0).
Proof.
  split; [reflexivity|].
  apply (wrapper_propagates_exception no_str (raising module_not_found) [] [] w0 w0).
  reflexivity.
Defined.



Lemma patch_silent_on_import_Exception_witness :
  import_raising module_not_found st_bare = (Raise module_not_found, st_bare) ∧
  isinstance_Exception module_not_found = true ∧
  _patch_gradio_ui no_str (import_raising module_not_found) st_bare = (Ret VNone, st_bare).
Proof.
  split; [reflexivity|]. split; [reflexivity|].
  apply (patch_silent_on_import_Exception no_str (import_raising module_not_found)
           st_bare st_bare module_not_found); reflexivity.
Defined.

(** C4, as stated, fails: a [KeyboardInterrupt] raised while the module is
    imported is not an instance of [Exception], and leaves the procedure. *)
Lemma patch_import_KeyboardInterrupt_escapes :
  import_raising keyboard_interrupt st_bare = (Raise keyboard_interrupt, st_bare) ∧
  _patch_gradio_ui no_str (import_raising keyboard_interrupt) st_bare
  = (Raise keyboard_interrupt, st_bare) ∧
  fst (_patch_gradio_ui no_str (import_raising keyboard_interrupt) st_bare) ≠ Ret VNone.
Proof.
  split; [reflexivity|]. split; [reflexivity|]. discriminate.
Defined.

Lemma patch_skips_absent_or_not_callable_witness :
  import_loaded st_gradio = (Ret gradio_ui_name, st_gradio) ∧
  fst (_patch_gradio_ui no_str import_loaded st_gradio) = Ret VNone ∧
  module_dict (snd (_patch_gradio_ui no_str import_loaded st_gradio)) gradio_ui_name
    !! "process_file"
  = module_dict st_gradio gradio_ui_name !! "process_file".
Proof.
  split; [reflexivity|].
  destruct (patch_skips_absent_or_not_callable no_str import_loaded st_gradio st_gradio
              (Ret gradio_ui_name) eq_refl) as (Hskip & _).
  apply (Hskip gradio_ui_name "process_file"%string eq_refl).
  - apply list_elem_of_In. simpl. auto.
  - right. exists (VInt 7). reflexivity.
Defined.

(** C5, as stated, fails in its last clause: the procedure raises when the
    import raises [SystemExit]. *)
Lemma patch_import_SystemExit_escapes :
  import_raising system_exit st_gradio = (Raise system_exit, st_gradio) ∧
  fst (_patch_gradio_ui no_str (import_raising system_exit) st_gradio) = Raise system_exit ∧
  ¬ ∃ v, fst (_patch_gradio_ui no_str (import_raising system_exit) st_gradio) = Ret v.
Proof.
  split; [reflexivity|]. split; [reflexivity|]. intros [v Hv]. discriminate Hv.
Defined.

Lemma patch_frame_witness :
  import_loaded st_gradio = (Ret gradio_ui_name, st_gradio) ∧
  outside (snd (_patch_gradio_ui no_str import_loaded st_gradio)) = outside st_gradio ∧
  (∀ m, Ret gradio_ui_name ≠ Ret m →
        sys_modules (snd (_patch_gradio_ui no_str import_loaded st_gradio)) !! m
        = sys_modules st_gradio !! m) ∧
  (∀ m a, a ∉ patched_names →
          module_dict (snd (_patch_gradio_ui no_str import_loaded st_gradio)) m !! a
          = module_dict st_gradio m !! a).
Proof.
  split; [reflexivity|].
  apply (patch_frame no_str import_loaded st_gradio st_gradio (Ret gradio_ui_name)).
  reflexivity.
Defined.

End Instances.

(** * Further properties *)

(** ** The shape of a task identifier *)

Section PatternShape.

Lemma fullmatch_groups (s : str) :
  fullmatch TASK_ID_PATTERN s = true → uuid_text_form s.
Proof.
  rewrite fullmatch_spec. unfold TASK_ID_PATTERN, uuid_text_form. intros Hm.
  repeat match type of Hm with
         | match_prefix (Seq _ _) _ = Some _ =>
             let mid := fresh "mid" in let Ha := fresh "Ha" in
             apply match_prefix_Seq in Hm as (mid & Ha & Hm)
         end.
  repeat match goal with
         | Hx : match_prefix (Repeat HEX _) _ = Some _ |- _ =>
             let g := fresh "g" in let Hg := fresh "Hg" in
             apply match_prefix_HEX_group in Hx as (g & -> & Hg)
         | Hx : match_prefix HYPHEN _ = Some _ |- _ =>
             apply match_prefix_HYPHEN in Hx as ->
         end.
  rewrite app_nil_r. do 5 eexists. split; [reflexivity|].
  repeat (split; [assumption|]). assumption.
Qed.

Lemma hex_digit_not_LF (c : char) : hex_digit c → c ≠ LF.
Proof.
  intros Hc ->. apply HEX_ranges_hex_digit in Hc. discriminate Hc.
Qed.

Lemma hex_digit_not_hyphen (c : char) : hex_digit c → c ≠ 45.
Proof.
  intros Hc ->. apply HEX_ranges_hex_digit in Hc. discriminate Hc.
Qed.

(** The length of a matching string and the characters it is made of. *)
Lemma fullmatch_length_chars (s : str) :
  fullmatch TASK_ID_PATTERN s = true →
  length s = 36%nat ∧ Forall (λ c, hex_digit c ∨ c = 45) s.
Proof.
  intros Hm. apply fullmatch_groups in Hm
    as (g1 & g2 & g3 & g4 & g5 & -> & [L1 F1] & [L2 F2] & [L3 F3] & [L4 F4] & [L5 F5]).
  split.
  - rewrite !length_app. unfold hyphen. simpl. lia.
  - repeat (apply Forall_app; split);
      try (eapply Forall_impl; [eassumption|]; intros c Hc; by left);
      unfold hyphen; apply Forall_singleton; by right.
Qed.

Lemma groups_fullmatch (s : str) :
  uuid_text_form s → fullmatch TASK_ID_PATTERN s = true.
Proof.
  rewrite fullmatch_spec. unfold TASK_ID_PATTERN.
  intros (g1 & g2 & g3 & g4 & g5 & -> & H1 & H2 & H3 & H4 & H5).
  repeat (apply match_prefix_Seq; eexists; split;
          [first [apply match_prefix_HEX_group; eexists; split; [reflexivity|eassumption]
                 |apply match_prefix_HYPHEN; reflexivity]|]).
  apply match_prefix_HEX_group. exists g5. rewrite app_nil_r. auto.
Qed.

Local Tactic Notation "explode" ident(g) integer(n) :=
  do n (destruct g as [|? g]; [done|]); destruct g; [|done].

Local Ltac split_Forall :=
  repeat match goal with
         | F : Forall _ (_ :: _) |- _ => apply Forall_cons in F as [? F]
         end.

Local Ltac lookups Hpos k :=
  lazymatch k with
  | O => idtac
  | S ?k' => pose proof (Hpos k' _ eq_refl); lookups Hpos k'
  end.

Lemma in_hyphen_positions (i : nat) :
  i ∈ hyphen_positions ↔ existsb (Nat.eqb i) hyphen_positions = true.
Proof.
  rewrite existsb_exists. setoid_rewrite Nat.eqb_eq. rewrite list_elem_of_In.
  split; [eauto|]. intros (x & Hx & ->). exact Hx.
Qed.

(** X6. A string fully matches the pattern if and only if it has 36
    characters, a hyphen at each of the positions 8, 13, 18 and 23 and a
    hexadecimal digit at every other position. *)
Theorem fullmatch_positions (s : str) :
  fullmatch TASK_ID_PATTERN s = true ↔
  length s = 36%nat ∧
  ∀ (i : nat) (c : char), s !! i = Some c →
    (i ∈ hyphen_positions → c = 45) ∧ (i ∉ hyphen_positions → hex_digit c).
Proof.
  split.
  - intros Hm. apply fullmatch_groups in Hm
      as (g1 & g2 & g3 & g4 & g5 & -> & [L1 F1] & [L2 F2] & [L3 F3] & [L4 F4] & [L5 F5]).
    explode g1 8. explode g2 4. explode g3 4. explode g4 4. explode g5 12.
    split_Forall. split; [reflexivity|].
    intros i x Hi.
    do 36 (destruct i as [|i];
           [injection Hi as <-; split; intros Hp;
            first [ reflexivity
                  | assumption
                  | apply in_hyphen_positions in Hp; discriminate Hp
                  | exfalso; apply Hp, in_hyphen_positions; reflexivity ]|]).
    discriminate Hi.
  - intros [Hlen Hpos]. apply groups_fullmatch.
    explode s 36. lookups Hpos 36%nat.
    repeat match goal with
           | F : (?k ∈ _ → _) ∧ (_ → _) |- _ =>
               let Fh := fresh "Fh" in
               let Fd := fresh "Fd" in
               let Fk := fresh "Fk" in
               destruct F as [Fh Fd];
               first [ specialize (Fh (proj2 (in_hyphen_positions k) eq_refl));
                       subst; clear Fd
                     | assert (k ∉ hyphen_positions) as Fk
                         by (intros Fk; apply in_hyphen_positions in Fk; discriminate Fk);
                       specialize (Fd Fk); clear Fh Fk ]
           end.
    match goal with
    | |- uuid_text_form ?l =>
        exists (take 8 l), (take 4 (drop 9 l)), (take 4 (drop 14 l)),
               (take 4 (drop 19 l)), (drop 24 l)
    end.
    split; [reflexivity|].
    unfold hex_group. cbn [take drop].
    repeat match goal with
           | |- _ ∧ _ => split
           | |- length _ = _ => reflexivity
           | |- Forall _ (_ :: _) => apply Forall_cons_2; [assumption|]
           | |- Forall _ [] => apply Forall_nil_2
           end.
Qed.

End PatternShape.

(** ** The lines of the wrapper *)

Section WrapperLines.

Context {H : Type}.
Variable str_of_other : value → str.

Local Arguments fullmatch : simpl never.
Local Arguments str_of : simpl never.

Lemma tag_without_LF : LF ∉ str_of "docling_task_id=".
Proof.
  intros Hin. apply list_elem_of_In in Hin. vm_compute in Hin.
  repeat (destruct Hin as [Hin|Hin]; [discriminate Hin|]). destruct Hin.
Qed.

Lemma task_id_without_LF (s : str) :
  fullmatch TASK_ID_PATTERN s = true → LF ∉ s.
Proof.
  intros Hm Hin. apply fullmatch_length_chars in Hm as [_ Hchars].
  rewrite Forall_forall in Hchars. apply Hchars in Hin as [Hhex|Heq].
  - by apply hex_digit_not_LF in Hhex.
  - discriminate Heq.
Qed.

(** X7. Whatever the wrapper adds to standard output is nothing or one
    line: 53 characters, the last one a line feed and no line feed before
    it. *)
Theorem wrapper_writes_one_line
    (func : pyobj) args kwargs (w w1 : world (H:=H)) (o : outcome value) :
  call func args kwargs w = (o, w1) →
  ∃ out : str,
    snd (wrapper str_of_other func args kwargs w) = write out w1 ∧
    (out = [] ∨
     (length out = 53%nat ∧ ∃ body, out = body ++ [LF] ∧ LF ∉ body)).
Proof.
  intros Hcall. exists (emission o).
  rewrite (wrapper_run _ _ _ _ _ _ _ Hcall). split; [reflexivity|].
  destruct o as [v|e]; [|by left]. destruct v; try by left.
  cbn [emission]. destruct (fullmatch TASK_ID_PATTERN s) eqn:Hm; [right|by left].
  split.
  - unfold tagged_line. rewrite !length_app.
    apply fullmatch_length_chars in Hm as [-> _]. reflexivity.
  - exists (str_of "docling_task_id=" ++ s). split.
    + unfold tagged_line. by rewrite app_assoc.
    + apply not_elem_of_app. split; [apply tag_without_LF|by apply task_id_without_LF].
Qed.




End WrapperLines.

(** ** What the patch binds *)

Section PatchBindings.

Context {H : Type}.
Variable str_of_other : value → str.
Variable import_gradio_ui : SE (interp (H:=H)) string.

Abbreviation run_patch := (_patch_gradio_ui str_of_other import_gradio_ui).
Abbreviation wic := (wrap_if_callable str_of_other).

Lemma wic_callable (o : pyobj (H:=H)) : py_callable (wic o) = py_callable o.
Proof. unfold wrap_if_callable. by destruct (py_callable o) eqn:E. Qed.

Lemma module_dict_Some (st : interp (H:=H)) (m name : string) (o : pyobj) :
  module_dict st m !! name = Some o → sys_modules st !! m = Some (module_dict st m).
Proof.
  unfold module_dict. destruct (sys_modules st !! m) as [d|]; cbn [default].
  - done.
  - by rewrite lookup_empty.
Qed.

(** One turn of the loop at the name it handles. *)
Lemma rebind_same (m name : string) (st : interp (H:=H)) :
  module_dict (rebind str_of_other m name st) m !! name
  = wic <$> module_dict st m !! name.
Proof.
  destruct (module_dict st m !! name) as [[v|f]|] eqn:Ea.
  - unfold rebind. rewrite Ea. cbn [py_callable]. by rewrite Ea.
  - by rewrite (rebind_wraps _ _ _ _ _ Ea).
  - unfold rebind. rewrite Ea. by rewrite Ea.
Qed.

Lemma rebind_other_dict (m m' name : string) (st : interp (H:=H)) :
  m' ≠ m → module_dict (rebind str_of_other m name st) m' = module_dict st m'.
Proof.
  intros Hne. unfold module_dict. by rewrite rebind_other_module.
Qed.

Lemma rebind_dom_modules (m name : string) (st : interp (H:=H)) :
  dom (sys_modules (rebind str_of_other m name st)) = dom (sys_modules st).
Proof.
  unfold rebind. destruct (module_dict st m !! name) as [o|] eqn:Ea; [|done].
  destruct (py_callable o); [|done]. simpl.
  apply dom_insert_lookup_L. apply module_dict_Some in Ea. by rewrite Ea.
Qed.

Lemma rebind_dom_dict (m m' name : string) (st : interp (H:=H)) :
  dom (module_dict (rebind str_of_other m name st) m') = dom (module_dict st m').
Proof.
  destruct (decide (m' = m)) as [->|Hne]; [|by rewrite rebind_other_dict].
  unfold rebind. destruct (module_dict st m !! name) as [o|] eqn:Ea; [|done].
  destruct (py_callable o); [|done].
  unfold module_dict at 1. simpl. rewrite lookup_insert_eq. simpl.
  apply dom_insert_lookup_L. by rewrite Ea.
Qed.

Lemma rebind_keeps_callable (m m' name a : string) (st : interp (H:=H)) (o : pyobj) :
  module_dict st m' !! a = Some o →
  ∃ o', module_dict (rebind str_of_other m name st) m' !! a = Some o' ∧
        py_callable o' = py_callable o.
Proof.
  intros Ho. destruct (decide (m' = m)) as [->|Hm].
  - destruct (decide (a = name)) as [->|Ha].
    + exists (wic o). rewrite rebind_same, Ho. split; [done|apply wic_callable].
    + exists o. by rewrite rebind_other_name.
  - exists o. by rewrite rebind_other_dict.
Qed.

(** The two names after the patch, when the import gives the module. *)
Lemma patch_lookup (st st1 : interp (H:=H)) (m name : string) :
  import_gradio_ui st = (Ret m, st1) →
  name ∈ patched_names →
  module_dict (snd (run_patch st)) m !! name = wic <$> module_dict st1 m !! name.
Proof.
  intros Himp Hname. rewrite (patch_run_imported _ _ _ _ _ Himp). cbn [snd].
  apply list_elem_of_In in Hname. simpl in Hname.
  destruct Hname as [<-|[<-|[]]].
  - rewrite rebind_other_name by discriminate. apply rebind_same.
  - rewrite rebind_same. by rewrite rebind_other_name.
Qed.

(** X1. When the import gives the module, each of the two names that is
    bound to a callable is bound, after the patch, to the wrapper of that
    callable. *)
Theorem patch_binds_wrapper
    (st st1 : interp (H:=H)) (m name : string) (f : callable (H:=H)) :
  import_gradio_ui st = (Ret m, st1) →
  name ∈ patched_names →
  module_dict st1 m !! name = Some (Callable f) →
  module_dict (snd (run_patch st)) m !! name
  = Some (_wrap_task_id str_of_other (Callable f)).
Proof.
  intros Himp Hname Hf. by rewrite (patch_lookup _ _ _ _ Himp Hname), Hf.
Qed.

(** X2. The loop of the patch creates and deletes nothing: compared with
    the interpreter as the import statement leaves it, the loaded modules and
    the attribute names of every module are the same after the patch, and an
    attribute is callable after the patch exactly when it was callable
    then. *)
Theorem patch_keeps_names (st st1 : interp (H:=H)) (imported : outcome string) :
  import_gradio_ui st = (imported, st1) →
  dom (sys_modules (snd (run_patch st))) = dom (sys_modules st1) ∧
  (∀ m, dom (module_dict (snd (run_patch st)) m) = dom (module_dict st1 m)) ∧
  (∀ m a o, module_dict st1 m !! a = Some o →
     ∃ o', module_dict (snd (run_patch st)) m !! a = Some o' ∧
           py_callable o' = py_callable o).
Proof.
  intros Himp. destruct imported as [gradio_ui|e].
  - rewrite (patch_run_imported _ _ _ _ _ Himp). cbn [snd]. split; [|split].
    + by rewrite !rebind_dom_modules.
    + intros m. by rewrite !rebind_dom_dict.
    + intros m a o Ho.
      destruct (rebind_keeps_callable gradio_ui m "process_url" a st1 o Ho)
        as (o1 & Ho1 & Hc1).
      destruct (rebind_keeps_callable gradio_ui m "process_file" a _ o1 Ho1)
        as (o2 & Ho2 & Hc2).
      exists o2. split; [exact Ho2|congruence].
  - rewrite (patch_run_import_raises _ _ _ _ _ Himp).
    destruct (isinstance_Exception e); cbn [snd]; eauto.
Qed.


(** X4. Nothing marks a name as patched: when the procedure runs a second
    time on the module it has patched, a callable name is wrapped again, and
    is bound to the wrapper of the wrapper. *)
Theorem patch_twice_wraps_twice
    (st st1 : interp (H:=H)) (m name : string) (f : callable (H:=H)) :
  import_gradio_ui st = (Ret m, st1) →
  import_gradio_ui (snd (run_patch st)) = (Ret m, snd (run_patch st)) →
  name ∈ patched_names →
  module_dict st1 m !! name = Some (Callable f) →
  module_dict (snd (run_patch (snd (run_patch st)))) m !! name
  = Some (_wrap_task_id str_of_other (_wrap_task_id str_of_other (Callable f))).
Proof.
  intros Himp Himp2 Hname Hf.
  rewrite (patch_lookup _ _ _ _ Himp2 Hname).
  by rewrite (patch_lookup _ _ _ _ Himp Hname), Hf.
Qed.

End PatchBindings.

(** ** Instances of the further properties *)

Section FurtherInstances.

Lemma patched_names_process_url : "process_url"%string ∈ patched_names.
Proof. apply list_elem_of_In. simpl. auto. Qed.

Lemma patched_names_process_file : "process_file"%string ∈ patched_names.
Proof. apply list_elem_of_In. simpl. auto. Qed.

Lemma fullmatch_positions_witness :
  fullmatch TASK_ID_PATTERN sample_uuid = true ∧
  length sample_uuid = 36%nat ∧
  ∀ (i : nat) (c : char), sample_uuid !! i = Some c →
    (i ∈ hyphen_positions → c = 45) ∧ (i ∉ hyphen_positions → hex_digit c).
Proof.
  split; [reflexivity|].
  apply (proj1 (fullmatch_positions sample_uuid)). reflexivity.
Defined.

Lemma wrapper_writes_one_line_witness :
  call (returning (VStr sample_uuid)) [] [] w0 = (Ret (VStr sample_uuid), w0) ∧
  ∃ out : str,
    snd (wrapper no_str (returning (VStr sample_uuid)) [] [] w0) = write out w0 ∧
    (out = [] ∨
     (length out = 53%nat ∧ ∃ body, out = body ++ [LF] ∧ LF ∉ body)).
Proof.
  split; [reflexivity|].
  apply (wrapper_writes_one_line no_str (returning (VStr sample_uuid)) [] [] w0 w0
           (Ret (VStr sample_uuid))).
  reflexivity.
Defined.



Lemma patch_binds_wrapper_witness :
  import_loaded st_both = (Ret gradio_ui_name, st_both) ∧
  module_dict (snd (_patch_gradio_ui no_str import_loaded st_both)) gradio_ui_name
    !! "process_file"
  = Some (_wrap_task_id no_str (chatty (VStr sample_uuid))).
Proof.
  split; [reflexivity|].
  apply (patch_binds_wrapper no_str import_loaded st_both st_both
           gradio_ui_name "process_file").
  - reflexivity.
  - apply patched_names_process_file.
  - reflexivity.
Defined.

Lemma patch_keeps_names_witness :
  import_loaded st_gradio = (Ret gradio_ui_name, st_gradio) ∧
  dom (sys_modules (snd (_patch_gradio_ui no_str import_loaded st_gradio)))
  = dom (sys_modules st_gradio) ∧
  (∀ m, dom (module_dict (snd (_patch_gradio_ui no_str import_loaded st_gradio)) m)
        = dom (module_dict st_gradio m)) ∧
  (∀ m a o, module_dict st_gradio m !! a = Some o →
     ∃ o', module_dict (snd (_patch_gradio_ui no_str import_loaded st_gradio)) m !! a
           = Some o' ∧
           py_callable o' = py_callable o).
Proof.
  split; [reflexivity|].
  apply (patch_keeps_names no_str import_loaded st_gradio st_gradio (Ret gradio_ui_name)).
  reflexivity.
Defined.


Lemma patch_twice_wraps_twice_witness :
  import_loaded st_both = (Ret gradio_ui_name, st_both) ∧
  module_dict
    (snd (_patch_gradio_ui no_str import_loaded
            (snd (_patch_gradio_ui no_str import_loaded st_both))))
    gradio_ui_name !! "process_url"
  = Some (_wrap_task_id no_str (_wrap_task_id no_str (returning (VStr sample_uuid)))).
Proof.
  split; [reflexivity|].
  apply (patch_twice_wraps_twice no_str import_loaded st_both st_both
           gradio_ui_name "process_url").
  - reflexivity.
  - reflexivity.
  - apply patched_names_process_url.
  - reflexivity.
Defined.

End FurtherInstances.

(** ** The wrapper in a running interpreter *)

Section RuntimeWrapper.

Context {H : Type}.
Variable str_of_other : value → str.

Local Arguments fullmatch : simpl never.
Local Arguments str_of : simpl never.

(** C10, amended. For every value of a built-in type that the original
    callable returns, the wrapper returns it too, provided standard output
    is open when a line has to be printed: the type test keeps [fullmatch]
    away from [None], numbers and containers, on which it raises, and these
    are returned whatever the state of standard output. *)
Theorem wrapper_returns_normally_builtin
    (func : Runtime.pyobj) args kwargs (w w1 : Runtime.world (H:=H)) (v : value) :
  Runtime.call func args kwargs w = (Ret (Runtime.Plain v), w1) →
  (∀ s, v = VStr s → fullmatch TASK_ID_PATTERN s = true →
        Runtime.stdout_state w1 = Runtime.Open) →
  ∃ w2, Runtime.wrapper str_of_other func args kwargs w = (Ret (Runtime.Plain v), w2).
Proof.
  intros Hcall Hopen. unfold Runtime.wrapper, bind. rewrite Hcall.
  destruct v;
    cbv [and_then Runtime.isinstance_str isinstance_str ret]; try by eauto.
  cbv [eval Runtime.Pattern_fullmatch Pattern_fullmatch].
  destruct (fullmatch TASK_ID_PATTERN s) eqn:Hm; cbv [truth].
  - cbv [Runtime.format_value Runtime.print]. rewrite (Hopen s eq_refl Hm). eauto.
  - eauto.
Qed.

End RuntimeWrapper.

Section RuntimeInstances.

Import Runtime.

Lemma wrapper_returns_normally_builtin_witness :
  call (returning (Plain (VStr sample_uuid))) [] [] w_open
  = (Ret (Plain (VStr sample_uuid)), w_open) ∧
  (∀ s, VStr sample_uuid = VStr s → fullmatch TASK_ID_PATTERN s = true →
        stdout_state w_open = Open) ∧
  ∃ w2, wrapper no_str (returning (Plain (VStr sample_uuid))) [] [] w_open
        = (Ret (Plain (VStr sample_uuid)), w2).
Proof.
  split; [reflexivity|]. split; [reflexivity|].
  apply (wrapper_returns_normally_builtin no_str (returning (Plain (VStr sample_uuid)))
           [] [] w_open w_open (VStr sample_uuid)); reflexivity.
Defined.

(** C10, as stated, fails: the callable returns normally and the wrapper
    raises, when a task identifier is to be printed on a closed or broken
    standard output, when the returned object only claims the class [str],
    and when it is a subclass of [str] whose [__format__] raises. *)
Lemma wrapper_raises_after_normal_return :
  (call (returning (Plain (VStr sample_uuid))) [] [] w_closed
   = (Ret (Plain (VStr sample_uuid)), w_closed) ∧
   wrapper no_str (returning (Plain (VStr sample_uuid))) [] [] w_closed
   = (Raise (mk_exception ValueError (str_of "I/O operation on closed file.")),
      w_closed)) ∧
  (call (returning (Plain (VStr sample_uuid))) [] [] w_broken
   = (Ret (Plain (VStr sample_uuid)), w_broken) ∧
   wrapper no_str (returning (Plain (VStr sample_uuid))) [] [] w_broken
   = (Raise (mk_exception BrokenPipeError (str_of "[Errno 32] Broken pipe")),
      w_broken)) ∧
  (call (returning (ClassStr 1)) [] [] w_open = (Ret (ClassStr 1), w_open) ∧
   wrapper no_str (returning (ClassStr 1)) [] [] w_open
   = (Raise (mk_exception TypeError (str_of "expected string or bytes-like object")),
      w_open)) ∧
  (call (returning (unformattable sample_uuid)) [] [] w_open
   = (Ret (unformattable sample_uuid), w_open) ∧
   wrapper no_str (returning (unformattable sample_uuid)) [] [] w_open
   = (Raise (mk_exception RuntimeError (str_of "no format")), w_open)).
Proof.
  repeat split; reflexivity.
Defined.

End RuntimeInstances.
